(** * Ephemeral response cache and rate shapers of [src/lib/performance.ts]

    A shallow embedding of the process-wide TTL cache ([apiCache],
    [getCachedData], [setCachedData], [clearCache], [cachedFetch]), of the
    [debounce] / [throttle] closures and of the smaller utilities
    ([preloadResources], [measurePerformance], [optimizeImageUrl]), followed
    by the properties the specification states about them (C1 to C10) and by
    further properties read off the code (X1 onwards).

    Conventions of the embedding:
    - JavaScript numbers that carry times (what [Date.now()] returns, a [ttl],
      a delay) are integers of milliseconds, modelled in [Z]; NaN, infinities
      and fractions are outside the model.
    - The module-level [Map] is a [gmap string CacheEntry]; the clock and the
      network primitive are the two things the code consumes from its host,
      the first is a field of the world, the second a section variable.
    - One call runs at a time: the interleaving of two [cachedFetch] calls at
      their [await] points is not modelled. *)

From Stdlib Require Import ZArith String List Bool Lia.
From Stdlib Require Import DecimalString DecimalPos DecimalZ.
From stdpp Require Import base gmap strings.
Import ListNotations.

Local Open Scope string_scope.
Local Open Scope list_scope.
Local Open Scope Z_scope.
Local Set Warnings "-register-all".

(** ** JavaScript values held by the cache *)

(** The cache stores [unknown] data; what [response.json()] produces, plus
    [undefined], which a caller of [setCachedData] may pass. *)
Inductive JsValue : Type :=
| JsUndefined
| JsNull
| JsBool (b : bool)
| JsNumber (n : Z)
| JsString (s : string)
| JsArray (items : list JsValue)
| JsObject (fields : list (string * JsValue)).

(** ECMAScript [ToBoolean], the test behind [if (x)] and [!x]. *)
Definition truthy (v : JsValue) : bool :=
  match v with
  | JsUndefined | JsNull => false
  | JsBool b => b
  | JsNumber n => negb (n =? 0)
  | JsString s => negb (String.eqb s "")
  | JsArray _ | JsObject _ => true
  end.

(** ** The world the module runs in *)

(** [{ data: unknown; timestamp: number; ttl: number }] *)
Record CacheEntry : Type := mkEntry {
  data : JsValue;
  timestamp : Z;
  ttl : Z
}.

(** [RequestInit], as far as the module touches it: [headers] is the one
    field [cachedFetch] rewrites, the others are passed on by the spread. *)
Record RequestInit : Type := mkInit {
  method : option string;
  headers : gmap string string;
  body : option string
}.

Definition emptyInit : RequestInit :=
  {| method := None; headers := ∅; body := None |}.

(** One call of the network primitive, [fetch(url, init)]. *)
Record Request : Type := mkRequest {
  req_url : string;
  req_init : RequestInit
}.

(** What the code reads from a [Response]: [ok], [status], and the parsed
    body ([None] when [response.json()] rejects). *)
Record Response : Type := mkResponse {
  ok : bool;
  status : Z;
  json : option JsValue
}.

(** The answer of the network to one request: a response, or [None] when
    [fetch] itself rejects, and the time the caller stayed suspended. *)
Record NetReply : Type := mkReply {
  outcome : option Response;
  latency : Z
}.

Record World : Type := mkWorld {
  apiCache : gmap string CacheEntry;
  clock : Z;
  fetchLog : list Request
}.

(** What a promise can reject with here. *)
Inductive Thrown : Type :=
| ErrorObj (message : string)
| FetchTypeError
| JsonSyntaxError.

Inductive Settled (A : Type) : Type :=
| Fulfilled (v : A)
| Rejected (e : Thrown).
Arguments Fulfilled {A} v.
Arguments Rejected {A} e.

(** ** A state monad over the world *)

Definition Eff (A : Type) : Type := World -> A * World.

Definition ret {A} (a : A) : Eff A := fun w => (a, w).

Definition bind {A B} (c : Eff A) (k : A -> Eff B) : Eff B :=
  fun w => let (a, w') := c w in k a w'.

Notation "x <- c ;; k" := (bind c (fun x => k))
  (at level 100, c at next level, right associativity).
Notation "c ;;; k" := (bind c (fun _ => k))
  (at level 100, right associativity).

(** [Date.now()] *)
Definition dateNow : Eff Z := fun w => (clock w, w).

(** [apiCache.get(key)] *)
Definition mapGet (key : string) : Eff (option CacheEntry) :=
  fun w => (apiCache w !! key, w).

(** [apiCache.set(key, e)] *)
Definition mapSet (key : string) (e : CacheEntry) : Eff unit :=
  fun w => (tt, {| apiCache := <[key := e]> (apiCache w);
                   clock := clock w; fetchLog := fetchLog w |}).

(** [apiCache.delete(key)] *)
Definition mapDelete (key : string) : Eff unit :=
  fun w => (tt, {| apiCache := delete key (apiCache w);
                   clock := clock w; fetchLog := fetchLog w |}).

(** [apiCache.clear()] *)
Definition mapClear : Eff unit :=
  fun w => (tt, {| apiCache := ∅; clock := clock w; fetchLog := fetchLog w |}).

(** Time passing between two calls of the module. *)
Definition elapse (dt : Z) (w : World) : World :=
  {| apiCache := apiCache w; clock := clock w + dt; fetchLog := fetchLog w |}.

(** ** The cache store *)

Definition getCachedData (key : string) : Eff JsValue :=
  cached <- mapGet key ;;
  match cached with
  | None => ret JsNull
  | Some c =>
      now <- dateNow ;;
      if now - timestamp c >? ttl c
      then (mapDelete key ;;; ret JsNull)
      else ret (data c)
  end.

Definition setCachedData (key : string) (d : JsValue) (t : Z) : Eff unit :=
  now <- dateNow ;;
  mapSet key {| data := d; timestamp := now; ttl := t |}.

(** [key?: string]: [None] is the omitted (or [undefined]) argument. The
    source tests [if (key)], the truthiness of the argument. *)
Definition clearCache (key : option string) : Eff unit :=
  match key with
  | Some k => if truthy (JsString k) then mapDelete k else mapClear
  | None => mapClear
  end.

(** ** The cached fetch wrapper *)

(** [CacheOptions]: [{ ttl?: number; key: string }] *)
Record CacheOptions : Type := mkCacheOptions {
  co_ttl : option Z;
  co_key : string
}.

(** Conversion of a number to the text a template literal prints. *)
Definition numberToString (n : Z) : string :=
  NilZero.string_of_int (Z.to_int n).

(** [`HTTP error! status: ${response.status}`] *)
Definition httpErrorMessage (st : Z) : string :=
  "HTTP error! status: " +:+ numberToString st.

(** Reading the status back from the message of a thrown error. *)
Definition statusOfThrown (e : Thrown) : option Z :=
  match e with
  | ErrorObj m =>
      if String.prefix "HTTP error! status: " m
      then Z.of_int <$> NilZero.int_of_string
             (String.substring 20 (String.length m - 20)%nat m)
      else None
  | _ => None
  end.

(** [{ ...options, headers: { "Cache-Control": "max-age=60",
       ...options.headers } }]: the caller's headers win over the default. *)
Definition withCacheControl (options : RequestInit) : RequestInit :=
  {| method := method options;
     headers := headers options ∪ {[ "Cache-Control" := "max-age=60" ]};
     body := body options |}.

Section CachedFetch.

(** The network fetch primitive of the host: its answer to a request sent
    at a given time. *)
Variable network : Request -> Z -> NetReply.

(** [await fetch(url, init)]: the call is recorded, the caller is suspended
    for the latency of the answer (the time until the body is read and
    parsed, the second [await], is counted in). *)
Definition fetch (url : string) (init : RequestInit) : Eff (option Response) :=
  fun w =>
    let rq := {| req_url := url; req_init := init |} in
    let r := network rq (clock w) in
    (outcome r, {| apiCache := apiCache w;
                   clock := clock w + latency r;
                   fetchLog := fetchLog w ++ [rq] |}).

Definition cachedFetch (url : string) (options : RequestInit)
    (cacheOptions : CacheOptions) : Eff (Settled JsValue) :=
  let key := co_key cacheOptions in
  let ttl := default 60000 (co_ttl cacheOptions) in
  cached <- getCachedData key ;;
  if truthy cached then ret (Fulfilled cached)
  else
    response <- fetch url (withCacheControl options) ;;
    match response with
    | None => ret (Rejected FetchTypeError)
    | Some response =>
        if negb (ok response)
        then ret (Rejected (ErrorObj (httpErrorMessage (status response))))
        else
          match json response with
          | None => ret (Rejected JsonSyntaxError)
          | Some d => setCachedData key d ttl ;;; ret (Fulfilled d)
          end
    end.

End CachedFetch.

(** ** Timers of the host and the two rate shapers *)

Section RateShapers.

(** The argument list [...args] of the wrapped function. *)
Variable Args : Type.

(** The two arrow functions the module hands to [setTimeout]. *)
Inductive Callback : Type :=
| CallFunc (args : Args)      (* [() => func(...args)] *)
| ResetThrottle.              (* [() => (inThrottle = false)] *)

Record Timer : Type := mkTimer {
  timer_id : nat;
  due : Z;
  callback : Callback
}.

(** The event loop as the closures see it: its clock, its timer queue in
    firing order, the two closure variables, and the record a spy keeps of
    the invocations of [func] (time and arguments, oldest first). *)
Record Loop : Type := mkLoop {
  loop_now : Z;
  next_id : nat;
  pending : list Timer;
  timeout : option nat;        (* [let timeout: NodeJS.Timeout] *)
  inThrottle : option bool;    (* [let inThrottle: boolean], [None] = undefined *)
  invoked : list (Z * Args)
}.

Definition initLoop : Loop :=
  {| loop_now := 0; next_id := 1%nat; pending := [];
     timeout := None; inThrottle := None; invoked := [] |}.

(** A new timer goes behind the timers due at the same time. *)
Fixpoint enqueue (tm : Timer) (q : list Timer) : list Timer :=
  match q with
  | [] => [tm]
  | x :: q' => if due tm <? due x then tm :: q else x :: enqueue tm q'
  end.

Definition dequeue (h : nat) (q : list Timer) : list Timer :=
  filter (fun tm => negb (Nat.eqb (timer_id tm) h)) q.

(** [setTimeout(cb, delay)], for a delay of at least a millisecond. *)
Definition setTimeout (cb : Callback) (delay : Z) (l : Loop) : nat * Loop :=
  let h := next_id l in
  (h, {| loop_now := loop_now l; next_id := S h;
         pending := enqueue {| timer_id := h; due := loop_now l + delay;
                               callback := cb |} (pending l);
         timeout := timeout l; inThrottle := inThrottle l;
         invoked := invoked l |}).

(** [clearTimeout(h)]; an undefined or stale handle clears nothing. *)
Definition clearTimeout (h : option nat) (l : Loop) : Loop :=
  match h with
  | None => l
  | Some h =>
      {| loop_now := loop_now l; next_id := next_id l;
         pending := dequeue h (pending l);
         timeout := timeout l; inThrottle := inThrottle l;
         invoked := invoked l |}
  end.

(** [func(...args)], seen by the spy. *)
Definition callFunc (args : Args) (l : Loop) : Loop :=
  {| loop_now := loop_now l; next_id := next_id l; pending := pending l;
     timeout := timeout l; inThrottle := inThrottle l;
     invoked := invoked l ++ [(loop_now l, args)] |}.

Definition setInThrottle (b : bool) (l : Loop) : Loop :=
  {| loop_now := loop_now l; next_id := next_id l; pending := pending l;
     timeout := timeout l; inThrottle := Some b; invoked := invoked l |}.

Definition setTimeoutVar (h : nat) (l : Loop) : Loop :=
  {| loop_now := loop_now l; next_id := next_id l; pending := pending l;
     timeout := Some h; inThrottle := inThrottle l; invoked := invoked l |}.

Definition runCallback (cb : Callback) (l : Loop) : Loop :=
  match cb with
  | CallFunc args => callFunc args l
  | ResetThrottle => setInThrottle false l
  end.

(** The timer [tm] fires: the clock stands at its due time, it leaves the
    queue, its callback runs. *)
Definition fire (tm : Timer) (l : Loop) : Loop :=
  runCallback (callback tm)
    {| loop_now := due tm; next_id := next_id l;
       pending := dequeue (timer_id tm) (pending l);
       timeout := timeout l; inThrottle := inThrottle l;
       invoked := invoked l |}.

(** The timers of [q] due by [t] fire in order. No callback of the module
    sets or clears a timer, so the queue at the start decides which fire. *)
Fixpoint fireDue (t : Z) (q : list Timer) (l : Loop) : Loop :=
  match q with
  | [] => l
  | tm :: q' => if due tm <=? t then fireDue t q' (fire tm l) else l
  end.

(** The loop runs until the clock reads [t]. *)
Definition advanceTo (t : Z) (l : Loop) : Loop :=
  let l' := fireDue t (pending l) l in
  {| loop_now := t; next_id := next_id l'; pending := pending l';
     timeout := timeout l'; inThrottle := inThrottle l';
     invoked := invoked l' |}.

(** The loop runs until no timer is left. *)
Definition runToIdle (l : Loop) : Loop :=
  fold_left (fun acc tm => fire tm acc) (pending l) l.

(** The function [debounce(func, wait)] returns. *)
Definition debounce (wait : Z) (args : Args) (l : Loop) : Loop :=
  let l1 := clearTimeout (timeout l) l in
  let (h, l2) := setTimeout (CallFunc args) wait l1 in
  setTimeoutVar h l2.

(** The function [throttle(func, limit)] returns; [!undefined] is true. *)
Definition throttle (limit : Z) (args : Args) (l : Loop) : Loop :=
  if negb (default false (inThrottle l)) then
    let l1 := callFunc args l in
    let l2 := setInThrottle true l1 in
    snd (setTimeout ResetThrottle limit l2)
  else l.

(** A script of invocations of a wrapper, each at its time; the timers due
    by that time have fired before the invocation runs. *)
Fixpoint runCalls (wrapped : Args -> Loop -> Loop)
    (script : list (Z * Args)) (l : Loop) : Loop :=
  match script with
  | [] => l
  | (t, args) :: rest => runCalls wrapped rest (wrapped args (advanceTo t l))
  end.

(** *** States of the two wrappers *)

(** The debounced wrapper has a call pending: one timer, due [wait] after the
    invocation at [t], that will run [func] with the arguments [a], and the
    closure variable holds its handle. *)
Definition armed (wait t : Z) (a : Args) (l : Loop) : Prop :=
  exists h, pending l = [mkTimer h (t + wait) (CallFunc a)]
            /\ timeout l = Some h.

(** The invocations of a burst: each comes before the pending call is due. *)
Fixpoint burst (wait prev : Z) (script : list (Z * Args)) : Prop :=
  match script with
  | [] => True
  | (t, _) :: rest => t < prev + wait /\ burst wait t rest
  end.

(** The throttled wrapper is inside a window that ends at [d]: the flag is
    set and the one pending timer is the reset due at [d]. *)
Definition inWindow (d : Z) (l : Loop) : Prop :=
  inThrottle l = Some true /\
  exists h, pending l = [mkTimer h d ResetThrottle].

End RateShapers.

Arguments CallFunc {Args} args.
Arguments armed {Args} wait t a l.
Arguments burst {Args} wait prev script.
Arguments inWindow {Args} d l.
Arguments mkTimer {Args} timer_id due callback.
Arguments next_id {Args} l.
Arguments fire {Args} tm l.
Arguments fireDue {Args} t q l.
Arguments ResetThrottle {Args}.
Arguments initLoop {Args}.
Arguments debounce {Args} wait args l.
Arguments throttle {Args} limit args l.
Arguments runCalls {Args} wrapped script l.
Arguments advanceTo {Args} t l.
Arguments runToIdle {Args} l.
Arguments invoked {Args} l.
Arguments pending {Args} l.
Arguments loop_now {Args} l.
Arguments inThrottle {Args} l.
Arguments timeout {Args} l.
Arguments due {Args} t.
Arguments callback {Args} t.
Arguments timer_id {Args} t.

(** *** Shapes of scripts and of records of executions *)

(** Each invocation of the script comes when the one before it has been due
    for execution: at least [wait] after it. *)
Fixpoint spaced {A : Type} (wait prev : Z) (script : list (Z * A)) : Prop :=
  match script with
  | [] => True
  | (t, _) :: rest => prev + wait <= t /\ spaced wait t rest
  end.

(** Two executions in a row are at least [limit] apart. *)
Fixpoint minGap {A : Type} (limit : Z) (xs : list (Z * A)) : Prop :=
  match xs with
  | [] => True
  | x :: rest =>
      match rest with
      | [] => True
      | y :: _ => fst x + limit <= fst y
      end /\ minGap limit rest
  end.

(** ** The other utilities of the module *)

(** [optimizeImageUrl]: [if (!url) return ""; return url;] *)
Definition optimizeImageUrl (url : string) : string :=
  if negb (truthy (JsString url)) then "" else url.

(** [p.catch(() => {})]: a fulfilled promise keeps its value, a rejected one
    is turned into a promise fulfilled with [undefined] ([None]). *)
Definition catchIgnore {A : Type} (p : Settled A) : Settled (option A) :=
  match p with
  | Fulfilled v => Fulfilled (Some v)
  | Rejected _ => Fulfilled None
  end.

(** [xs.forEach(f)]: the callback runs on each element in order, what it
    returns is dropped. *)
Fixpoint forEach {A B : Type} (xs : list A) (f : A -> Eff B) : Eff unit :=
  match xs with
  | [] => ret tt
  | x :: rest => f x ;;; forEach rest f
  end.

(** [const criticalEndpoints = ["/api/customers", "/api/invoices?limit=10"]] *)
Definition criticalEndpoints : list string :=
  ["/api/customers"; "/api/invoices?limit=10"].

(** [{ headers: { "Cache-Control": "max-age=60" } }] *)
Definition preloadInit : RequestInit :=
  {| method := None;
     headers := {[ "Cache-Control" := "max-age=60" ]};
     body := None |}.

Section Preload.

Variable network : Request -> Z -> NetReply.

(** A [fetch] that is not awaited: the request leaves at once and is
    recorded, the caller goes on at the same time; the value is how the
    promise settles, as the network answers the request. *)
Definition fetchDetached (url : string) (init : RequestInit)
    : Eff (Settled Response) :=
  fun w =>
    let rq := {| req_url := url; req_init := init |} in
    (match outcome (network rq (clock w)) with
     | Some r => Fulfilled r
     | None => Rejected FetchTypeError
     end,
     {| apiCache := apiCache w; clock := clock w;
        fetchLog := fetchLog w ++ [rq] |}).

(** The callback of the [forEach]:
    [fetch(endpoint, {...}).catch(() => { })]; its value is the settlement
    of the whole chain. *)
Definition preloadOne (endpoint : string) : Eff (Settled (option Response)) :=
  p <- fetchDetached endpoint preloadInit ;;
  ret (catchIgnore p).

Definition preloadResources : Eff unit :=
  forEach criticalEndpoints preloadOne.

End Preload.

(** *** Performance monitoring *)

Section MeasurePerformance.

(** The numbers [performance.now()] returns are fractional; they stay
    abstract, with the subtraction [end - start] and the conversion a
    template literal applies to the difference. *)
Variable Num : Type.
Variable sub : Num -> Num -> Num.
Variable numText : Num -> string.

(** What [measurePerformance] sees of its host: the high-resolution clock and
    the lines written by [console.log]. *)
Record PerfWorld : Type := mkPerfWorld {
  perfNow : Num;
  consoleLog : list string
}.

(** A pending promise, by the way it settles: from the world its creator
    went on in to the world at its settlement, with the outcome. *)
Definition Pending : Type := PerfWorld -> Settled unit * PerfWorld.

(** What the call [fn()] can do: return nothing, throw, or return a promise. *)
Inductive FnResult : Type :=
| FnVoid
| FnThrows (e : Thrown)
| FnPromise (p : Pending).

(** What [measurePerformance] itself does: return [undefined], let the
    exception of [fn] through, or return the promise of [finally]. *)
Inductive Measured : Type :=
| MeasuredVoid
| MeasuredThrows (e : Thrown)
| MeasuredPromise (p : Pending).

(** [console.log(`${name} took ${end - start} milliseconds`)], with
    [const end = performance.now()] read at that moment. *)
Definition logDuration (name : string) (start : Num) (w : PerfWorld)
    : PerfWorld :=
  let end_ := perfNow w in
  {| perfNow := perfNow w;
     consoleLog := consoleLog w ++
       [name +:+ " took " +:+ numText (sub end_ start) +:+ " milliseconds"] |}.

(** [p.finally(cb)]: the callback runs when [p] settles, the outcome of [p]
    is passed on (the callback here does not throw). *)
Definition finally_ (p : Pending) (cb : PerfWorld -> PerfWorld) : Pending :=
  fun w => let (out, w') := p w in (out, cb w').

Definition measurePerformance (name : string)
    (fn : PerfWorld -> FnResult * PerfWorld) (w : PerfWorld)
    : Measured * PerfWorld :=
  let start := perfNow w in
  let (result, w1) := fn w in
  match result with
  | FnThrows e => (MeasuredThrows e, w1)
  | FnPromise p => (MeasuredPromise (finally_ p (logDuration name start)), w1)
  | FnVoid => (MeasuredVoid, logDuration name start w1)
  end.

End MeasurePerformance.

Arguments mkPerfWorld {Num} perfNow consoleLog.
Arguments perfNow {Num} p.
Arguments consoleLog {Num} p.
Arguments FnVoid {Num}.
Arguments FnThrows {Num} e.
Arguments FnPromise {Num} p.
Arguments MeasuredVoid {Num}.
Arguments MeasuredThrows {Num} e.
Arguments MeasuredPromise {Num} p.
Arguments logDuration {Num} sub numText name start w.
Arguments finally_ {Num} p cb.
Arguments measurePerformance {Num} sub numText name fn w.

(** ** Concrete worlds and servers for the examples *)

(** An entry read at exactly its ttl, next to an entry long expired. *)
Definition boundaryWorld : World :=
  {| apiCache := <[ "dashboard" := mkEntry (JsNumber 42) 1000 30000 ]>
                   (<[ "customers" := mkEntry (JsString "old") 0 10 ]> ∅);
     clock := 31000; fetchLog := [] |}.

(** A store with an entry under the empty key and one under another key. *)
Definition twoKeyWorld : World :=
  {| apiCache := <[ "" := mkEntry (JsString "root") 1000 60000 ]>
                   (<[ "invoices:p1" :=
                         mkEntry (JsArray [JsObject [("id", JsNumber 1)]])
                                 1000 60000 ]> ∅);
     clock := 2000; fetchLog := [] |}.

(** A server that answers every request with status 500 after 80 ms. *)
Definition failingNetwork : Request -> Z -> NetReply :=
  fun _ _ => mkReply (Some (mkResponse false 500 None)) 80.

(** A server that answers every request with the JSON number 3 after 120 ms. *)
Definition countNetwork : Request -> Z -> NetReply :=
  fun _ _ => mkReply (Some (mkResponse true 200 (Some (JsNumber 3)))) 120.

(** An entry set at 1000 with a ttl of a minute, read 61 seconds later. *)
Definition expiredWorld : World :=
  {| apiCache := <[ "invoices:p1" :=
                      mkEntry (JsArray [JsObject [("id", JsNumber 1)]])
                              1000 60000 ]> ∅;
     clock := 62000; fetchLog := [] |}.

(** A server whose count of overdue invoices is 0 until time 2000 and 3 from
    then on; it answers after 120 ms. *)
Definition overdueNetwork : Request -> Z -> NetReply :=
  fun _ t =>
    mkReply (Some (mkResponse true 200
                     (Some (JsNumber (if t <? 2000 then 0 else 3))))) 120.

(** * Properties *)

(** ** Equations of the store operations *)

Lemma getCachedData_absent (key : string) (w : World) :
  apiCache w !! key = None -> getCachedData key w = (JsNull, w).
Proof.
  intros Hk. unfold getCachedData, bind, mapGet. rewrite Hk. reflexivity.
Qed.

Lemma getCachedData_fresh (key : string) (w : World) (e : CacheEntry) :
  apiCache w !! key = Some e ->
  clock w - timestamp e <= ttl e ->
  getCachedData key w = (data e, w).
Proof.
  intros Hk Hle. unfold getCachedData, bind, mapGet, dateNow. rewrite Hk.
  destruct (Z.gtb_spec (clock w - timestamp e) (ttl e)) as [Hgt | _].
  - lia.
  - reflexivity.
Qed.

Lemma getCachedData_expired (key : string) (w : World) (e : CacheEntry) :
  apiCache w !! key = Some e ->
  clock w - timestamp e > ttl e ->
  getCachedData key w =
    (JsNull, {| apiCache := delete key (apiCache w);
                clock := clock w; fetchLog := fetchLog w |}).
Proof.
  intros Hk Hgt. unfold getCachedData, bind, mapGet, dateNow. rewrite Hk.
  destruct (Z.gtb_spec (clock w - timestamp e) (ttl e)) as [_ | Hle].
  - reflexivity.
  - lia.
Qed.

Lemma setCachedData_eq (key : string) (d : JsValue) (t : Z) (w : World) :
  setCachedData key d t w =
    (tt, {| apiCache := <[key := mkEntry d (clock w) t]> (apiCache w);
            clock := clock w; fetchLog := fetchLog w |}).
Proof. reflexivity. Qed.

(** A read only ever touches the clock-independent parts it is given: the
    clock and the record of network calls are as before. *)
Lemma getCachedData_clock_log (key : string) (w : World) :
  clock (snd (getCachedData key w)) = clock w /\
  fetchLog (snd (getCachedData key w)) = fetchLog w.
Proof.
  destruct (apiCache w !! key) as [e |] eqn:Hk.
  - destruct (Z_le_gt_dec (clock w - timestamp e) (ttl e)) as [Hle | Hgt].
    + rewrite (getCachedData_fresh key w e Hk Hle). split; reflexivity.
    + rewrite (getCachedData_expired key w e Hk Hgt). split; reflexivity.
  - rewrite (getCachedData_absent key w Hk). split; reflexivity.
Qed.

(** A read leaves every other key alone, whatever the state of its entry. *)
Lemma getCachedData_other (key k' : string) (w : World) :
  k' <> key ->
  apiCache (snd (getCachedData key w)) !! k' = apiCache w !! k'.
Proof.
  intros Hne.
  destruct (apiCache w !! key) as [e |] eqn:Hk.
  - destruct (Z_le_gt_dec (clock w - timestamp e) (ttl e)) as [Hle | Hgt].
    + rewrite (getCachedData_fresh key w e Hk Hle). reflexivity.
    + rewrite (getCachedData_expired key w e Hk Hgt). simpl.
      apply lookup_delete_ne. congruence.
  - rewrite (getCachedData_absent key w Hk). reflexivity.
Qed.

(** ** The store: round trip, expiry, overwrite, frame *)

(** C3: for every key, payload and ttl > 0, [setCachedData key payload ttl]
    followed by [getCachedData key] at any time within [ttl] milliseconds of
    the set returns the payload unchanged. *)
Theorem set_then_get_roundtrip
    (key : string) (payload : JsValue) (t dt : Z) (w : World) :
  0 < t ->
  0 <= dt <= t ->
  fst (getCachedData key (elapse dt (snd (setCachedData key payload t w))))
    = payload.
Proof.
  intros Ht Hdt. rewrite setCachedData_eq. simpl snd.
  rewrite (getCachedData_fresh key _ (mkEntry payload (clock w) t)).
  - reflexivity.
  - simpl. apply lookup_insert_eq.
  - simpl. lia.
Qed.

Lemma set_then_get_roundtrip_witness :
  fst (getCachedData "invoices:p1"
         (elapse 60000
            (snd (setCachedData "invoices:p1"
                    (JsArray [JsObject [("id", JsNumber 1)]]) 60000
                    (mkWorld ∅ 1000 [])))))
    = JsArray [JsObject [("id", JsNumber 1)]].
Proof.
  apply (set_then_get_roundtrip "invoices:p1"
           (JsArray [JsObject [("id", JsNumber 1)]]) 60000 60000
           (mkWorld ∅ 1000 [])); lia.
Defined.

(** The scenario of the specification: after 61000 ms the same read finds
    nothing and the entry is gone. *)
Example scenario_expired_after_61000 :
  let w1 := snd (setCachedData "invoices:p1"
                   (JsArray [JsObject [("id", JsNumber 1)]]) 60000
                   (mkWorld ∅ 1000 [])) in
  let r := getCachedData "invoices:p1" (elapse 61000 w1) in
  fst r = JsNull /\ apiCache (snd r) !! "invoices:p1" = None.
Proof. split; reflexivity. Qed.

(** C4: for a key with an entry in the store, the entry is valid (the read
    serves it and keeps it) if and only if [now - insertedAt <= ttl], so it
    is still valid at exactly [now - insertedAt = ttl]; when
    [now - insertedAt > ttl] the read returns absent and removes the entry.
    Eviction is lazy: the read touches no other key, expired or not. *)
Theorem getCachedData_valid_iff_within_ttl
    (key : string) (w : World) (e : CacheEntry) :
  apiCache w !! key = Some e ->
  (getCachedData key w = (data e, w) <-> clock w - timestamp e <= ttl e) /\
  (clock w - timestamp e = ttl e -> getCachedData key w = (data e, w)) /\
  (clock w - timestamp e > ttl e ->
     fst (getCachedData key w) = JsNull /\
     apiCache (snd (getCachedData key w)) = delete key (apiCache w) /\
     apiCache (snd (getCachedData key w)) !! key = None) /\
  (forall k' : string, k' <> key ->
     apiCache (snd (getCachedData key w)) !! k' = apiCache w !! k').
Proof.
  intros Hk. repeat split.
  - intros Heq.
    destruct (Z_le_gt_dec (clock w - timestamp e) (ttl e)) as [Hle | Hgt].
    + exact Hle.
    + rewrite (getCachedData_expired key w e Hk Hgt) in Heq.
      assert (Hw : delete key (apiCache w) !! key = apiCache w !! key).
      { injection Heq as _ Hw. rewrite <- Hw at 2. reflexivity. }
      rewrite lookup_delete_eq, Hk in Hw. discriminate.
  - intros Hle. exact (getCachedData_fresh key w e Hk Hle).
  - intros Heq. apply (getCachedData_fresh key w e Hk). lia.
  - rewrite (getCachedData_expired key w e Hk); [reflexivity | assumption].
  - rewrite (getCachedData_expired key w e Hk); [reflexivity | assumption].
  - rewrite (getCachedData_expired key w e Hk); [| assumption].
    simpl. apply lookup_delete_eq.
  - intros k' Hne. exact (getCachedData_other key k' w Hne).
Qed.

Lemma getCachedData_valid_iff_within_ttl_witness :
  (getCachedData "dashboard" boundaryWorld = (JsNumber 42, boundaryWorld)
     <-> 31000 - 1000 <= 30000) /\
  (31000 - 1000 = 30000 ->
     getCachedData "dashboard" boundaryWorld = (JsNumber 42, boundaryWorld)) /\
  (31000 - 1000 > 30000 ->
     fst (getCachedData "dashboard" boundaryWorld) = JsNull /\
     apiCache (snd (getCachedData "dashboard" boundaryWorld))
       = delete "dashboard" (apiCache boundaryWorld) /\
     apiCache (snd (getCachedData "dashboard" boundaryWorld)) !! "dashboard"
       = None) /\
  (forall k' : string, k' <> "dashboard" ->
     apiCache (snd (getCachedData "dashboard" boundaryWorld)) !! k'
       = apiCache boundaryWorld !! k').
Proof.
  apply (getCachedData_valid_iff_within_ttl "dashboard" boundaryWorld
           (mkEntry (JsNumber 42) 1000 30000)).
  reflexivity.
Defined.

(** One millisecond later the same entry is evicted by the read, and the
    expired neighbour is still in the store. *)
Example boundary_plus_one_evicts :
  let r := getCachedData "dashboard" (elapse 1 boundaryWorld) in
  fst r = JsNull /\
  apiCache (snd r) !! "dashboard" = None /\
  apiCache (snd r) !! "customers" = Some (mkEntry (JsString "old") 0 10).
Proof. repeat split; reflexivity. Qed.

(** C6: [setCachedData key payload ttl] writes the entry (payload, current
    time, ttl) under [key] whatever the store held there before (nothing, a
    valid entry, an expired one), and writes nothing else. *)
Theorem setCachedData_overwrites
    (key : string) (payload : JsValue) (t : Z) (w : World) :
  let w' := snd (setCachedData key payload t w) in
  apiCache w' !! key = Some (mkEntry payload (clock w) t) /\
  apiCache w' = <[key := mkEntry payload (clock w) t]> (apiCache w) /\
  delete key (apiCache w') = delete key (apiCache w) /\
  clock w' = clock w /\ fetchLog w' = fetchLog w.
Proof.
  rewrite setCachedData_eq. simpl. repeat split.
  - apply lookup_insert_eq.
  - apply delete_insert_eq.
Qed.

(** Overwriting a valid entry and an expired one, on concrete stores. *)
Example setCachedData_over_valid_and_expired :
  apiCache (snd (setCachedData "dashboard" JsNull 5 boundaryWorld))
    !! "dashboard" = Some (mkEntry JsNull 31000 5) /\
  apiCache (snd (setCachedData "customers" (JsBool true) 7 boundaryWorld))
    !! "customers" = Some (mkEntry (JsBool true) 31000 7).
Proof. split; reflexivity. Qed.

(** C7: a read of a key whose entry is valid leaves the whole world as it
    was: same payload, same insertion time, same ttl under the key, and the
    same mapping everywhere else. *)
Theorem getCachedData_hit_leaves_cache_unchanged
    (key : string) (w : World) (e : CacheEntry) :
  apiCache w !! key = Some e ->
  clock w - timestamp e <= ttl e ->
  fst (getCachedData key w) = data e /\
  snd (getCachedData key w) = w /\
  apiCache (snd (getCachedData key w)) = apiCache w /\
  apiCache (snd (getCachedData key w)) !! key = Some e.
Proof.
  intros Hk Hle. rewrite (getCachedData_fresh key w e Hk Hle). simpl.
  repeat split. exact Hk.
Qed.

Lemma getCachedData_hit_leaves_cache_unchanged_witness :
  fst (getCachedData "dashboard" boundaryWorld) = JsNumber 42 /\
  snd (getCachedData "dashboard" boundaryWorld) = boundaryWorld /\
  apiCache (snd (getCachedData "dashboard" boundaryWorld))
    = apiCache boundaryWorld /\
  apiCache (snd (getCachedData "dashboard" boundaryWorld)) !! "dashboard"
    = Some (mkEntry (JsNumber 42) 1000 30000).
Proof.
  apply (getCachedData_hit_leaves_cache_unchanged "dashboard" boundaryWorld
           (mkEntry (JsNumber 42) 1000 30000)).
  - reflexivity.
  - simpl. lia.
Defined.

(** ** Clearing *)

(** An empty string is the one string [if (key)] takes for no key. *)
Lemma truthy_string (k : string) : truthy (JsString k) = true <-> k <> "".
Proof.
  simpl. destruct (String.eqb_spec k "") as [-> | Hne]; simpl.
  - split; [discriminate | congruence].
  - split; [intros _; exact Hne | reflexivity].
Qed.

(** With a non-empty key only that entry goes; an absent key is a no-op. *)
Lemma clearCache_key (k : string) (w : World) :
  k <> "" ->
  apiCache (snd (clearCache (Some k) w)) = delete k (apiCache w) /\
  apiCache (snd (clearCache (Some k) w)) !! k = None /\
  (forall k' : string, k' <> k ->
     apiCache (snd (clearCache (Some k) w)) !! k' = apiCache w !! k') /\
  (apiCache w !! k = None ->
     apiCache (snd (clearCache (Some k) w)) = apiCache w).
Proof.
  intros Hne. unfold clearCache.
  apply truthy_string in Hne. rewrite Hne. simpl. repeat split.
  - apply lookup_delete_eq.
  - intros k' Hk'. apply lookup_delete_ne. congruence.
  - intros Hk. apply delete_id. exact Hk.
Qed.

(** Without an argument every entry goes. *)
Lemma clearCache_all (w : World) (k : string) :
  apiCache (snd (clearCache None w)) = ∅ /\
  fst (getCachedData k (snd (clearCache None w))) = JsNull.
Proof. split; reflexivity. Qed.

(** C2, at the empty key: [clearCache("")] takes the branch of the omitted
    argument and empties the store, so the entry under ["invoices:p1"], which
    was retrievable before, is no longer. *)
Theorem clearCache_empty_key_clears_all :
  snd (setCachedData "" (JsString "root") 60000
         (snd (setCachedData "invoices:p1"
                 (JsArray [JsObject [("id", JsNumber 1)]]) 60000
                 (mkWorld ∅ 1000 []))))
    = elapse (-1000) twoKeyWorld /\
  fst (getCachedData "invoices:p1" twoKeyWorld)
    = JsArray [JsObject [("id", JsNumber 1)]] /\
  apiCache (snd (clearCache (Some "") twoKeyWorld)) = ∅ /\
  apiCache (snd (clearCache (Some "") twoKeyWorld))
    <> delete "" (apiCache twoKeyWorld) /\
  fst (getCachedData "invoices:p1" (snd (clearCache (Some "") twoKeyWorld)))
    = JsNull.
Proof.
  repeat split.
  intros Heq.
  assert (H : (∅ : gmap string CacheEntry) !! "invoices:p1"
              = delete "" (apiCache twoKeyWorld) !! "invoices:p1")
    by (rewrite <- Heq; reflexivity).
  vm_compute in H. discriminate.
Qed.

(** ** The cached fetch wrapper *)

(** The message of the thrown error carries the status: it can be read back. *)
Lemma substring_whole (s : string) :
  String.substring 0 (String.length s) s = s.
Proof. induction s as [| c s IH]; simpl; [reflexivity | now rewrite IH]. Qed.

Lemma statusOfThrown_httpError (st : Z) :
  statusOfThrown (ErrorObj (httpErrorMessage st)) = Some st.
Proof.
  unfold statusOfThrown, httpErrorMessage, numberToString. simpl.
  assert (Hp : String.prefix "" (NilZero.string_of_int (Z.to_int st)) = true)
    by (destruct (NilZero.string_of_int (Z.to_int st)); reflexivity).
  change ("" +:+ NilZero.string_of_int (Z.to_int st))
    with (NilZero.string_of_int (Z.to_int st)).
  rewrite Hp, Nat.sub_0_r, substring_whole.
  rewrite NilZero.isi.
  - simpl. f_equal. apply DecimalZ.of_to.
  - destruct st as [| p | p]; simpl; try discriminate.
    intros H. injection H as H. exact (Unsigned.to_uint_nonnil p H).
  - destruct st as [| p | p]; simpl; try discriminate.
    intros H. injection H as H. exact (Unsigned.to_uint_nonnil p H).
Qed.

Section CachedFetchProperties.

Variable network : Request -> Z -> NetReply.

(** The two ways out of the lookup at the head of [cachedFetch]. *)
Lemma cachedFetch_truthy (url : string) (options : RequestInit)
    (co : CacheOptions) (w : World) :
  truthy (fst (getCachedData (co_key co) w)) = true ->
  cachedFetch network url options co w =
    (Fulfilled (fst (getCachedData (co_key co) w)),
     snd (getCachedData (co_key co) w)).
Proof.
  intros Ht. unfold cachedFetch, bind at 1.
  destruct (getCachedData (co_key co) w) as [cached w1]. simpl in *.
  rewrite Ht. reflexivity.
Qed.

Lemma cachedFetch_falsy (url : string) (options : RequestInit)
    (co : CacheOptions) (w : World) :
  truthy (fst (getCachedData (co_key co) w)) = false ->
  cachedFetch network url options co w =
    (response <- fetch network url (withCacheControl options) ;;
     match response with
     | None => ret (Rejected FetchTypeError)
     | Some response =>
         if negb (ok response)
         then ret (Rejected (ErrorObj (httpErrorMessage (status response))))
         else
           match json response with
           | None => ret (Rejected JsonSyntaxError)
           | Some d =>
               setCachedData (co_key co) d (default 60000 (co_ttl co)) ;;;
               ret (Fulfilled d)
           end
     end) (snd (getCachedData (co_key co) w)).
Proof.
  intros Ht. unfold cachedFetch, bind at 1.
  destruct (getCachedData (co_key co) w) as [cached w1]. simpl in *.
  rewrite Ht. reflexivity.
Qed.

(** A valid entry with a truthy payload is served from the cache: the
    payload comes back, the world is as before, the network primitive is
    not called. *)
Lemma cachedFetch_hit_truthy (url : string) (options : RequestInit)
    (co : CacheOptions) (w : World) (e : CacheEntry) :
  apiCache w !! co_key co = Some e ->
  clock w - timestamp e <= ttl e ->
  truthy (data e) = true ->
  cachedFetch network url options co w = (Fulfilled (data e), w) /\
  fetchLog (snd (cachedFetch network url options co w)) = fetchLog w.
Proof.
  intros Hk Hle Ht.
  assert (Hg := getCachedData_fresh (co_key co) w e Hk Hle).
  rewrite cachedFetch_truthy; rewrite Hg; simpl; auto.
Qed.

(** The miss path, response not ok: the error is thrown before anything is
    stored. *)
Lemma cachedFetch_miss_not_ok (url : string) (options : RequestInit)
    (co : CacheOptions) (w : World) (r : Response) (lat : Z) :
  truthy (fst (getCachedData (co_key co) w)) = false ->
  network (mkRequest url (withCacheControl options)) (clock w)
    = mkReply (Some r) lat ->
  ok r = false ->
  cachedFetch network url options co w =
    (Rejected (ErrorObj (httpErrorMessage (status r))),
     {| apiCache := apiCache (snd (getCachedData (co_key co) w));
        clock := clock w + lat;
        fetchLog := fetchLog w
                      ++ [mkRequest url (withCacheControl options)] |}).
Proof.
  intros Hmiss Hnet Hok. rewrite cachedFetch_falsy by exact Hmiss.
  destruct (getCachedData_clock_log (co_key co) w) as [Hc Hl].
  unfold bind, fetch. rewrite Hc, Hl, Hnet. simpl. rewrite Hok.
  reflexivity.
Qed.

(** The miss path, response ok and parsed: the payload is stored under the
    key with the ttl of the options, 60000 when they give none. *)
Lemma cachedFetch_miss_ok (url : string) (options : RequestInit)
    (co : CacheOptions) (w : World) (r : Response) (lat : Z) (d : JsValue) :
  truthy (fst (getCachedData (co_key co) w)) = false ->
  network (mkRequest url (withCacheControl options)) (clock w)
    = mkReply (Some r) lat ->
  ok r = true ->
  json r = Some d ->
  cachedFetch network url options co w =
    (Fulfilled d,
     {| apiCache :=
          <[co_key co := mkEntry d (clock w + lat)
                           (default 60000 (co_ttl co))]>
            (apiCache (snd (getCachedData (co_key co) w)));
        clock := clock w + lat;
        fetchLog := fetchLog w
                      ++ [mkRequest url (withCacheControl options)] |}).
Proof.
  intros Hmiss Hnet Hok Hjson. rewrite cachedFetch_falsy by exact Hmiss.
  destruct (getCachedData_clock_log (co_key co) w) as [Hc Hl].
  unfold bind, fetch. rewrite Hc, Hl, Hnet. simpl. rewrite Hok, Hjson.
  reflexivity.
Qed.

End CachedFetchProperties.

(** What a lookup that returns [null] leaves under the key: nothing, or a
    valid entry whose payload is [null] itself. *)
Lemma getCachedData_null_leaves (key : string) (w : World) :
  fst (getCachedData key w) = JsNull ->
  apiCache (snd (getCachedData key w)) !! key = None \/
  exists e, apiCache (snd (getCachedData key w)) !! key = Some e /\
            data e = JsNull.
Proof.
  intros Hnull.
  destruct (apiCache w !! key) as [e |] eqn:Hk.
  - destruct (Z_le_gt_dec (clock w - timestamp e) (ttl e)) as [Hle | Hgt].
    + rewrite (getCachedData_fresh key w e Hk Hle) in *. simpl in *.
      right. exists e. split; assumption.
    + rewrite (getCachedData_expired key w e Hk Hgt). simpl.
      left. apply lookup_delete_eq.
  - rewrite (getCachedData_absent key w Hk). simpl. left. exact Hk.
Qed.

(** Such a key reads as absent at every time. *)
Lemma getCachedData_stays_null (key : string) (w : World) :
  (apiCache w !! key = None \/
   exists e, apiCache w !! key = Some e /\ data e = JsNull) ->
  fst (getCachedData key w) = JsNull.
Proof.
  intros [Hk | [e [Hk Hd]]].
  - rewrite (getCachedData_absent key w Hk). reflexivity.
  - destruct (Z_le_gt_dec (clock w - timestamp e) (ttl e)) as [Hle | Hgt].
    + rewrite (getCachedData_fresh key w e Hk Hle). exact Hd.
    + rewrite (getCachedData_expired key w e Hk Hgt). reflexivity.
Qed.

Section CachedFetchMissPath.

Variable network : Request -> Z -> NetReply.

(** C5, as the code has it: when the lookup of the key misses and the
    response indicates failure, [cachedFetch] rejects with an [Error] whose
    message carries the status, and nothing is written to the cache. The
    store afterwards is the one the lookup left: unchanged when the key had
    no entry, without the key's entry when that entry had expired (lazy
    eviction by the lookup); every other key is untouched and the key keeps
    reading as absent. *)
Theorem cachedFetch_failure_stores_nothing
    (url : string) (options : RequestInit) (co : CacheOptions)
    (w : World) (r : Response) (lat : Z) :
  fst (getCachedData (co_key co) w) = JsNull ->
  network (mkRequest url (withCacheControl options)) (clock w)
    = mkReply (Some r) lat ->
  ok r = false ->
  let res := cachedFetch network url options co w in
  fst res = Rejected (ErrorObj (httpErrorMessage (status r))) /\
  statusOfThrown (ErrorObj (httpErrorMessage (status r))) = Some (status r) /\
  apiCache (snd res) = apiCache (snd (getCachedData (co_key co) w)) /\
  (apiCache w !! co_key co = None -> apiCache (snd res) = apiCache w) /\
  (forall e, apiCache w !! co_key co = Some e ->
             clock w - timestamp e > ttl e ->
             apiCache (snd res) = delete (co_key co) (apiCache w) /\
             apiCache (snd res) !! co_key co = None) /\
  (forall k' : string, k' <> co_key co ->
             apiCache (snd res) !! k' = apiCache w !! k') /\
  (forall dt : Z,
     fst (getCachedData (co_key co) (elapse dt (snd res))) = JsNull) /\
  fetchLog (snd res)
    = fetchLog w ++ [mkRequest url (withCacheControl options)].
Proof.
  intros Hmiss Hnet Hok res.
  assert (Hres := cachedFetch_miss_not_ok network url options co w r lat).
  fold res in Hres. rewrite Hmiss in Hres. specialize (Hres eq_refl Hnet Hok).
  rewrite Hres. simpl. repeat split.
  - apply statusOfThrown_httpError.
  - intros Hk. rewrite (getCachedData_absent _ w Hk). reflexivity.
  - rewrite (getCachedData_expired _ w e) by assumption. reflexivity.
  - rewrite (getCachedData_expired _ w e) by assumption.
    simpl. apply lookup_delete_eq.
  - intros k' Hne. apply getCachedData_other. exact Hne.
  - intros dt. apply getCachedData_stays_null. simpl.
    apply getCachedData_null_leaves. exact Hmiss.
Qed.

(** C10: when the cache options leave [ttl] out, a fetch that succeeds
    stores the parsed payload under the key with a ttl of 60000 ms, stamped
    with the time at which the response was there. *)
Theorem cachedFetch_default_ttl_60000
    (url : string) (options : RequestInit) (key : string)
    (w : World) (r : Response) (lat : Z) (d : JsValue) :
  truthy (fst (getCachedData key w)) = false ->
  network (mkRequest url (withCacheControl options)) (clock w)
    = mkReply (Some r) lat ->
  ok r = true ->
  json r = Some d ->
  let res := cachedFetch network url options (mkCacheOptions None key) w in
  fst res = Fulfilled d /\
  apiCache (snd res) !! key = Some (mkEntry d (clock w + lat) 60000) /\
  ttl <$> apiCache (snd res) !! key = Some 60000.
Proof.
  intros Hmiss Hnet Hok Hjson res. subst res.
  rewrite (cachedFetch_miss_ok network url options (mkCacheOptions None key)
             w r lat d Hmiss Hnet Hok Hjson).
  simpl. rewrite lookup_insert_eq. repeat split.
Qed.

(** X13: A ttl that is given is the one stored. *)
Lemma cachedFetch_given_ttl
    (url : string) (options : RequestInit) (key : string) (t : Z)
    (w : World) (r : Response) (lat : Z) (d : JsValue) :
  truthy (fst (getCachedData key w)) = false ->
  network (mkRequest url (withCacheControl options)) (clock w)
    = mkReply (Some r) lat ->
  ok r = true ->
  json r = Some d ->
  apiCache (snd (cachedFetch network url options
                   (mkCacheOptions (Some t) key) w)) !! key
    = Some (mkEntry d (clock w + lat) t).
Proof.
  intros Hmiss Hnet Hok Hjson.
  rewrite (cachedFetch_miss_ok network url options
             (mkCacheOptions (Some t) key) w r lat d Hmiss Hnet Hok Hjson).
  simpl. apply lookup_insert_eq.
Qed.

End CachedFetchMissPath.

(** ** The cached fetch wrapper on concrete worlds *)

(** C5 as stated fails: the lookup of a key whose entry has expired misses,
    the response is a 500, the call rejects with that status, and the cache
    has been mutated all the same, the lookup having evicted the entry. *)
Lemma cachedFetch_failure_evicts_expired :
  let res := cachedFetch failingNetwork "/api/invoices" emptyInit
               (mkCacheOptions None "invoices:p1") expiredWorld in
  fst (getCachedData "invoices:p1" expiredWorld) = JsNull /\
  fst res = Rejected (ErrorObj "HTTP error! status: 500") /\
  apiCache expiredWorld !! "invoices:p1"
    = Some (mkEntry (JsArray [JsObject [("id", JsNumber 1)]]) 1000 60000) /\
  apiCache (snd res) !! "invoices:p1" = None /\
  apiCache (snd res) <> apiCache expiredWorld.
Proof.
  repeat split.
  intros Heq.
  assert (H : apiCache (snd (cachedFetch failingNetwork "/api/invoices"
                               emptyInit (mkCacheOptions None "invoices:p1")
                               expiredWorld)) !! "invoices:p1"
              = apiCache expiredWorld !! "invoices:p1")
    by (rewrite Heq; reflexivity).
  vm_compute in H. discriminate.
Qed.

Lemma cachedFetch_failure_stores_nothing_witness :
  let res := cachedFetch failingNetwork "/api/invoices" emptyInit
               (mkCacheOptions None "invoices:p1") expiredWorld in
  fst res = Rejected (ErrorObj (httpErrorMessage 500)) /\
  statusOfThrown (ErrorObj (httpErrorMessage 500)) = Some 500 /\
  apiCache (snd res)
    = apiCache (snd (getCachedData "invoices:p1" expiredWorld)) /\
  (apiCache expiredWorld !! "invoices:p1" = None ->
     apiCache (snd res) = apiCache expiredWorld) /\
  (forall e, apiCache expiredWorld !! "invoices:p1" = Some e ->
             clock expiredWorld - timestamp e > ttl e ->
             apiCache (snd res)
               = delete "invoices:p1" (apiCache expiredWorld) /\
             apiCache (snd res) !! "invoices:p1" = None) /\
  (forall k' : string, k' <> "invoices:p1" ->
             apiCache (snd res) !! k' = apiCache expiredWorld !! k') /\
  (forall dt : Z,
     fst (getCachedData "invoices:p1" (elapse dt (snd res))) = JsNull) /\
  fetchLog (snd res)
    = fetchLog expiredWorld
        ++ [mkRequest "/api/invoices" (withCacheControl emptyInit)].
Proof.
  apply (cachedFetch_failure_stores_nothing failingNetwork "/api/invoices"
           emptyInit (mkCacheOptions None "invoices:p1") expiredWorld
           (mkResponse false 500 None) 80).
  - reflexivity.
  - reflexivity.
  - reflexivity.
Defined.

Lemma cachedFetch_default_ttl_60000_witness :
  let res := cachedFetch countNetwork "/api/stats/overdue" emptyInit
               (mkCacheOptions None "stats:overdue")
               (mkWorld ∅ 5000 []) in
  fst res = Fulfilled (JsNumber 3) /\
  apiCache (snd res) !! "stats:overdue"
    = Some (mkEntry (JsNumber 3) (5000 + 120) 60000) /\
  ttl <$> apiCache (snd res) !! "stats:overdue" = Some 60000.
Proof.
  apply (cachedFetch_default_ttl_60000 countNetwork "/api/stats/overdue"
           emptyInit "stats:overdue" (mkWorld ∅ 5000 [])
           (mkResponse true 200 (Some (JsNumber 3))) 120 (JsNumber 3)).
  - reflexivity.
  - reflexivity.
  - reflexivity.
  - reflexivity.
Defined.

(** C1, at a falsy payload: a first [cachedFetch] on an empty store fetches
    the number 0 and stores it; a second one a second later finds the entry
    valid, [getCachedData] returns its payload 0, but [cachedFetch] tests
    [if (cached)], takes the 0 for a miss, calls the network again and
    returns what the network sends now. *)
Theorem cachedFetch_falsy_payload_refetches :
  let co := mkCacheOptions (Some 60000) "stats:overdue" in
  let rq := mkRequest "/api/stats/overdue" (withCacheControl emptyInit) in
  let first := cachedFetch overdueNetwork "/api/stats/overdue" emptyInit co
                 (mkWorld ∅ 1000 []) in
  let w1 := elapse 1000 (snd first) in
  let second := cachedFetch overdueNetwork "/api/stats/overdue" emptyInit co
                  w1 in
  fst first = Fulfilled (JsNumber 0) /\
  apiCache w1 !! "stats:overdue" = Some (mkEntry (JsNumber 0) 1120 60000) /\
  clock w1 = 2120 /\
  getCachedData "stats:overdue" w1 = (JsNumber 0, w1) /\
  fetchLog w1 = [rq] /\
  fst second = Fulfilled (JsNumber 3) /\
  fetchLog (snd second) = [rq; rq].
Proof. repeat split. Qed.

(** ** Debounce and throttle *)

Section RateShaperLaws.

Variable Args : Type.
Implicit Types (l : Loop Args) (a : Args) (t wait limit : Z).

Lemma last_cons_default {A : Type} (x d : A) (q : list A) :
  List.last (x :: q) d = List.last q x.
Proof.
  revert x d. induction q as [| y q IH]; intros x d; [reflexivity |].
  change (List.last (x :: y :: q) d) with (List.last (y :: q) d).
  rewrite (IH y d), (IH y x). reflexivity.
Qed.

Lemma dequeue_single (h : nat) (d : Z) (cb : Callback Args) :
  dequeue Args h [mkTimer h d cb] = [].
Proof.
  unfold dequeue. rewrite filter_cons, filter_nil. simpl.
  rewrite Nat.eqb_refl. simpl. destruct (decide (Is_true false)) as [H | _].
  - destruct H.
  - reflexivity.
Qed.

(** Invoking the debounced wrapper while a call is pending replaces it. *)
Lemma debounce_replaces (wait t a : _) (a' : Args) (t' : Z) l :
  armed wait t a l ->
  t' < t + wait ->
  armed wait t' a' (debounce wait a' (advanceTo t' l)) /\
  invoked (debounce wait a' (advanceTo t' l)) = invoked l.
Proof.
  intros [h [Hp Ht]] Hlt.
  unfold advanceTo. rewrite Hp. simpl fireDue.
  destruct (Z.leb_spec (t + wait) t') as [Hle | _]; [lia |].
  unfold debounce. simpl. rewrite Ht. simpl. rewrite Hp, dequeue_single.
  simpl. split; [| reflexivity].
  exists (next_id l). split; reflexivity.
Qed.

(** The first invocation, on a loop with nothing pending, arms the wrapper. *)
Lemma debounce_first (wait t : Z) (a : Args) :
  armed wait t a (debounce wait a (advanceTo t initLoop)) /\
  invoked (debounce wait a (advanceTo t initLoop)) = [].
Proof.
  split; [| reflexivity]. exists 1%nat. split; reflexivity.
Qed.

(** Left alone, an armed wrapper runs [func] once, when the timer is due. *)
Lemma armed_runToIdle (wait t : Z) (a : Args) l :
  armed wait t a l ->
  invoked (runToIdle l) = invoked l ++ [(t + wait, a)] /\
  pending (runToIdle l) = [].
Proof.
  intros [h [Hp Ht]]. unfold runToIdle. rewrite Hp. simpl.
  rewrite Hp, dequeue_single. split; reflexivity.
Qed.

(** Debounce in general: of a burst of invocations only the last one is
    executed, [wait] after it, with its own arguments. *)
Lemma debounce_burst_from (wait t : Z) (a : Args)
    (script : list (Z * Args)) l :
  armed wait t a l ->
  burst wait t script ->
  invoked (runToIdle (runCalls (debounce wait) script l))
    = invoked l ++ [(fst (List.last script (t, a)) + wait,
                     snd (List.last script (t, a)))].
Proof.
  revert t a l. induction script as [| [t' a'] rest IH]; intros t a l Harm Hb.
  - simpl. apply (armed_runToIdle wait t a l Harm).
  - destruct Hb as [Hlt Hrest].
    destruct (debounce_replaces wait t a a' t' l Harm Hlt) as [Harm' Hinv].
    simpl runCalls. rewrite (IH t' a' _ Harm' Hrest), Hinv.
    rewrite last_cons_default. reflexivity.
Qed.


(** The first invocation runs [func] at once and opens a window. *)
Lemma throttle_leading_edge (limit : Z) (a : Args) l :
  default false (inThrottle l) = false ->
  pending l = [] ->
  invoked (throttle limit a l) = invoked l ++ [(loop_now l, a)] /\
  inWindow (loop_now l + limit) (throttle limit a l).
Proof.
  intros Hf Hp. unfold throttle. rewrite Hf. simpl. rewrite Hp.
  split; [reflexivity |]. split; [reflexivity |].
  exists (next_id l). reflexivity.
Qed.

(** An invocation inside the window is dropped: [func] is not run and the
    window is as it was. *)
Lemma throttle_drops_in_window (limit d t : Z) (a : Args) l :
  inWindow d l ->
  t < d ->
  invoked (throttle limit a (advanceTo t l)) = invoked l /\
  inWindow d (throttle limit a (advanceTo t l)).
Proof.
  intros [Hf [h Hp]] Hlt.
  unfold advanceTo. rewrite Hp. simpl fireDue.
  destruct (Z.leb_spec d t) as [Hle | _]; [lia |].
  unfold throttle. simpl. rewrite Hf. simpl.
  split; [reflexivity |]. split; [reflexivity |]. exists h. exact Hp.
Qed.

(** Once the window is over the next invocation runs [func] at once and
    opens a new window from its own time. *)
Lemma throttle_passes_after_window (limit d t : Z) (a : Args) l :
  inWindow d l ->
  d <= t ->
  invoked (throttle limit a (advanceTo t l)) = invoked l ++ [(t, a)] /\
  inWindow (t + limit) (throttle limit a (advanceTo t l)).
Proof.
  intros [Hf [h Hp]] Hle.
  unfold advanceTo. rewrite Hp. simpl fireDue.
  destruct (Z.leb_spec d t) as [_ | Hlt]; [| lia].
  unfold throttle. simpl. rewrite Hp, dequeue_single. simpl.
  split; [reflexivity |]. split; [reflexivity |].
  exists (next_id l). reflexivity.
Qed.

End RateShaperLaws.

(** C8: with a wait of 200 ms, invocations at 0, 50 and 100 lead to one
    execution of the wrapped function, at 300, with the arguments of the
    third; nothing has run by 299, nothing is left to run afterwards, and the
    first two invocations leave no trace. *)
Theorem debounce_three_calls_one_execution
    (Args : Type) (a1 a2 a3 : Args) :
  let l := runCalls (debounce 200) [(0, a1); (50, a2); (100, a3)] initLoop in
  invoked l = [] /\
  invoked (advanceTo 299 l) = [] /\
  invoked (advanceTo 300 l) = [(300, a3)] /\
  invoked (runToIdle l) = [(300, a3)] /\
  pending (runToIdle l) = [].
Proof. repeat split. Qed.

(** C9: with a window of 1000 ms, invocations at 0, 200, 400 and 1100 lead
    to two executions of the wrapped function, at 0 and at 1100: the first
    runs at once, the next two are dropped, the window is over by 1100. *)
Theorem throttle_four_calls_two_executions
    (Args : Type) (a1 a2 a3 a4 : Args) :
  let script := [(0, a1); (200, a2); (400, a3); (1100, a4)] in
  invoked (runCalls (throttle 1000) [(0, a1)] initLoop) = [(0, a1)] /\
  invoked (runCalls (throttle 1000) [(0, a1); (200, a2); (400, a3)] initLoop)
    = [(0, a1)] /\
  invoked (runCalls (throttle 1000) script initLoop)
    = [(0, a1); (1100, a4)] /\
  invoked (runToIdle (runCalls (throttle 1000) script initLoop))
    = [(0, a1); (1100, a4)].
Proof. repeat split. Qed.

(** * Further properties of the module *)

(** ** The store *)

(** What a read returns depends on the entry under its key and on the clock,
    on nothing else. *)
Lemma getCachedData_fst_ext (key : string) (w1 w2 : World) :
  apiCache w1 !! key = apiCache w2 !! key ->
  clock w1 = clock w2 ->
  fst (getCachedData key w1) = fst (getCachedData key w2).
Proof.
  intros Hk Hc. unfold getCachedData, bind, mapGet, dateNow.
  rewrite Hk. destruct (apiCache w2 !! key) as [e |]; [| reflexivity].
  rewrite Hc. destruct (clock w2 - timestamp e >? ttl e); reflexivity.
Qed.

(** An entry that a read serves and keeps is within its ttl. *)
Lemma getCachedData_kept_within (key : string) (w : World) (e : CacheEntry) :
  apiCache w !! key = Some e ->
  apiCache (snd (getCachedData key w)) !! key = Some e ->
  clock w - timestamp e <= ttl e.
Proof.
  intros Hk Hkept.
  destruct (Z_le_gt_dec (clock w - timestamp e) (ttl e)) as [Hle | Hgt].
  - exact Hle.
  - rewrite (getCachedData_expired key w e Hk Hgt) in Hkept. simpl in Hkept.
    rewrite lookup_delete_eq in Hkept. discriminate.
Qed.

(** The three shapes of a read, in one statement. *)
Lemma getCachedData_cases (key : string) (w : World) :
  getCachedData key w = (JsNull, w) /\ apiCache w !! key = None \/
  (exists e, apiCache w !! key = Some e /\ clock w - timestamp e <= ttl e /\
             getCachedData key w = (data e, w)) \/
  (exists e, apiCache w !! key = Some e /\ clock w - timestamp e > ttl e /\
             getCachedData key w =
               (JsNull, {| apiCache := delete key (apiCache w);
                           clock := clock w; fetchLog := fetchLog w |})).
Proof.
  destruct (apiCache w !! key) as [e |] eqn:Hk.
  - destruct (Z_le_gt_dec (clock w - timestamp e) (ttl e)) as [Hle | Hgt].
    + right. left. exists e. repeat split; [assumption |].
      exact (getCachedData_fresh key w e Hk Hle).
    + right. right. exists e. repeat split; [assumption |].
      exact (getCachedData_expired key w e Hk Hgt).
  - left. split; [exact (getCachedData_absent key w Hk) | reflexivity].
Qed.

(** X1: Reading the same key again at once gives the same answer and changes
    nothing more: what the first read evicted stays evicted, what it served
    is served again. *)
Theorem getCachedData_read_twice (key : string) (w : World) :
  getCachedData key (snd (getCachedData key w)) = getCachedData key w.
Proof.
  destruct (getCachedData_cases key w)
    as [[Heq Hk] | [[e [Hk [Hle Heq]]] | [e [Hk [Hgt Heq]]]]].
  - rewrite Heq. simpl. exact Heq.
  - rewrite Heq. simpl. exact Heq.
  - rewrite Heq. simpl. apply getCachedData_absent. simpl.
    apply lookup_delete_eq.
Qed.

(** The store a read leaves is part of the store it found. *)
Lemma getCachedData_subseteq (key : string) (w : World) :
  apiCache (snd (getCachedData key w)) ⊆ apiCache w.
Proof.
  destruct (getCachedData_cases key w)
    as [[Heq Hk] | [[e [Hk [Hle Heq]]] | [e [Hk [Hgt Heq]]]]];
    rewrite Heq; simpl; [reflexivity | reflexivity | apply delete_subseteq].
Qed.

(** X2: A read never adds or alters an entry, never calls the network and never
    moves the clock: the store afterwards is the old one, at most without
    the entry of the key read. *)
Theorem getCachedData_only_evicts (key : string) (w : World) :
  (apiCache (snd (getCachedData key w)) = apiCache w \/
   apiCache (snd (getCachedData key w)) = delete key (apiCache w)) /\
  apiCache (snd (getCachedData key w)) ⊆ apiCache w /\
  clock (snd (getCachedData key w)) = clock w /\
  fetchLog (snd (getCachedData key w)) = fetchLog w.
Proof.
  destruct (getCachedData_cases key w)
    as [[Heq Hk] | [[e [Hk [Hle Heq]]] | [e [Hk [Hgt Heq]]]]];
    rewrite Heq; simpl; repeat split; auto.
  apply delete_subseteq.
Qed.

(** X3: Writing one key does not change what a read of another key returns. *)
Theorem setCachedData_other_key_reads_same
    (k1 k2 : string) (d : JsValue) (t : Z) (w : World) :
  k2 <> k1 ->
  fst (getCachedData k2 (snd (setCachedData k1 d t w)))
    = fst (getCachedData k2 w) /\
  apiCache (snd (setCachedData k1 d t w)) !! k2 = apiCache w !! k2.
Proof.
  intros Hne. rewrite setCachedData_eq. simpl snd.
  assert (Hl : <[k1 := mkEntry d (clock w) t]> (apiCache w) !! k2
               = apiCache w !! k2)
    by (apply lookup_insert_ne; congruence).
  split; [| exact Hl].
  apply getCachedData_fst_ext; [exact Hl | reflexivity].
Qed.

Lemma setCachedData_other_key_reads_same_witness :
  fst (getCachedData "dashboard"
         (snd (setCachedData "customers" (JsBool true) 7 boundaryWorld)))
    = fst (getCachedData "dashboard" boundaryWorld) /\
  apiCache (snd (setCachedData "customers" (JsBool true) 7 boundaryWorld))
    !! "dashboard" = apiCache boundaryWorld !! "dashboard".
Proof.
  apply (setCachedData_other_key_reads_same "customers" "dashboard"
           (JsBool true) 7 boundaryWorld).
  discriminate.
Defined.

(** X4: A read that comes more than ttl milliseconds after the write finds
    nothing and removes the entry. With a negative ttl this is every read
    from the instant of the write on: such an entry is stored and never
    served. *)
Theorem set_then_late_get_misses
    (key : string) (payload : JsValue) (t dt : Z) (w : World) :
  t < dt ->
  fst (getCachedData key (elapse dt (snd (setCachedData key payload t w))))
    = JsNull /\
  apiCache (snd (setCachedData key payload t w)) !! key
    = Some (mkEntry payload (clock w) t) /\
  apiCache (snd (getCachedData key
                   (elapse dt (snd (setCachedData key payload t w)))))
    !! key = None.
Proof.
  intros Hlt. rewrite setCachedData_eq. simpl snd.
  rewrite (getCachedData_expired key _ (mkEntry payload (clock w) t)).
  - simpl. repeat split.
    + apply lookup_insert_eq.
    + apply lookup_delete_eq.
  - simpl. apply lookup_insert_eq.
  - simpl. lia.
Qed.

Lemma set_then_late_get_misses_witness :
  fst (getCachedData "k"
         (elapse 0 (snd (setCachedData "k" (JsNumber 1) (-1)
                           (mkWorld ∅ 1000 [])))))
    = JsNull /\
  apiCache (snd (setCachedData "k" (JsNumber 1) (-1) (mkWorld ∅ 1000 [])))
    !! "k" = Some (mkEntry (JsNumber 1) 1000 (-1)) /\
  apiCache (snd (getCachedData "k"
                   (elapse 0 (snd (setCachedData "k" (JsNumber 1) (-1)
                                     (mkWorld ∅ 1000 []))))))
    !! "k" = None.
Proof.
  apply (set_then_late_get_misses "k" (JsNumber 1) (-1) 0 (mkWorld ∅ 1000 [])).
  lia.
Defined.

(** X5: Validity only decays: an entry that a read at a later time still serves
    and keeps is served, and the world left alone, by a read at any earlier
    time. *)
Theorem getCachedData_served_later_served_earlier
    (key : string) (w : World) (e : CacheEntry) (dt1 dt2 : Z) :
  apiCache w !! key = Some e ->
  dt1 <= dt2 ->
  apiCache (snd (getCachedData key (elapse dt2 w))) !! key = Some e ->
  getCachedData key (elapse dt1 w) = (data e, elapse dt1 w).
Proof.
  intros Hk Hle Hkept.
  assert (Hin := getCachedData_kept_within key (elapse dt2 w) e Hk Hkept).
  simpl in Hin.
  apply getCachedData_fresh; [exact Hk |]. simpl. lia.
Qed.

Lemma getCachedData_served_later_served_earlier_witness :
  getCachedData "dashboard" (elapse (-500) boundaryWorld)
    = (JsNumber 42, elapse (-500) boundaryWorld).
Proof.
  apply (getCachedData_served_later_served_earlier "dashboard" boundaryWorld
           (mkEntry (JsNumber 42) 1000 30000) (-500) 0).
  - reflexivity.
  - lia.
  - reflexivity.
Defined.

(** ** Clearing *)

(** X6: For a key that is not the empty string, [clearCache(key)] removes that
    entry and no other, and does nothing when the key has no entry. *)
Theorem clearCache_nonempty_key_removes_only_it (k : string) (w : World) :
  k <> "" ->
  apiCache (snd (clearCache (Some k) w)) = delete k (apiCache w) /\
  fst (getCachedData k (snd (clearCache (Some k) w))) = JsNull /\
  (forall k' : string, k' <> k ->
     getCachedData k' (snd (clearCache (Some k) w)) =
       (fst (getCachedData k' w),
        snd (clearCache (Some k) (snd (getCachedData k' w))))) /\
  (apiCache w !! k = None -> snd (clearCache (Some k) w) = w).
Proof.
  intros Hne. apply truthy_string in Hne.
  unfold clearCache. rewrite Hne. simpl. repeat split.
  - rewrite getCachedData_absent; [reflexivity |]. simpl.
    apply lookup_delete_eq.
  - intros k' Hk'.
    assert (Hl : delete k (apiCache w) !! k' = apiCache w !! k')
      by (apply lookup_delete_ne; congruence).
    destruct (getCachedData_cases k' w)
      as [[Heq Hk] | [[e [Hk [Hle Heq]]] | [e [Hk [Hgt Heq]]]]];
      rewrite Heq; simpl.
    + apply getCachedData_absent. simpl. rewrite Hl. exact Hk.
    + rewrite (getCachedData_fresh k' _ e); simpl;
        [reflexivity | rewrite Hl; exact Hk | exact Hle].
    + rewrite (getCachedData_expired k' _ e); simpl;
        [| rewrite Hl; exact Hk | exact Hgt].
      f_equal. f_equal. apply delete_delete.
  - intros Hk. destruct w as [c n fl]. simpl in *. f_equal.
    apply delete_id. exact Hk.
Qed.

Lemma clearCache_nonempty_key_removes_only_it_witness :
  apiCache (snd (clearCache (Some "invoices:p1") twoKeyWorld))
    = delete "invoices:p1" (apiCache twoKeyWorld) /\
  fst (getCachedData "invoices:p1"
         (snd (clearCache (Some "invoices:p1") twoKeyWorld))) = JsNull /\
  (forall k' : string, k' <> "invoices:p1" ->
     getCachedData k' (snd (clearCache (Some "invoices:p1") twoKeyWorld)) =
       (fst (getCachedData k' twoKeyWorld),
        snd (clearCache (Some "invoices:p1")
               (snd (getCachedData k' twoKeyWorld))))) /\
  (apiCache twoKeyWorld !! "invoices:p1" = None ->
     snd (clearCache (Some "invoices:p1") twoKeyWorld) = twoKeyWorld).
Proof.
  apply (clearCache_nonempty_key_removes_only_it "invoices:p1" twoKeyWorld).
  discriminate.
Defined.

(** X7: Whatever its argument, [clearCache] only removes: no entry is added or
    altered, the clock and the network are not touched; and after
    [clearCache(k)], for every string [k], the key [k] reads as absent, as
    does every key after [clearCache()]. *)
Theorem clearCache_only_removes (key : option string) (k : string) (w : World) :
  apiCache (snd (clearCache key w)) ⊆ apiCache w /\
  clock (snd (clearCache key w)) = clock w /\
  fetchLog (snd (clearCache key w)) = fetchLog w /\
  fst (getCachedData k (snd (clearCache (Some k) w))) = JsNull /\
  fst (getCachedData k (snd (clearCache None w))) = JsNull.
Proof.
  repeat split.
  - unfold clearCache. destruct key as [k0 |]; [| apply map_empty_subseteq].
    destruct (truthy (JsString k0)); simpl;
      [apply delete_subseteq | apply map_empty_subseteq].
  - unfold clearCache. destruct key as [k0 |]; [| reflexivity].
    destruct (truthy (JsString k0)); reflexivity.
  - unfold clearCache. destruct key as [k0 |]; [| reflexivity].
    destruct (truthy (JsString k0)); reflexivity.
  - rewrite getCachedData_absent; [reflexivity |].
    unfold clearCache. destruct (truthy (JsString k)); simpl;
      [apply lookup_delete_eq | apply lookup_empty].
Qed.

(** ** The cached fetch wrapper, all paths *)

Section CachedFetchAllPaths.

Variable network : Request -> Z -> NetReply.

(** The miss path in full: one request goes out, and what comes back decides
    between the three rejections and the one success. *)
Lemma cachedFetch_miss_cases (url : string) (options : RequestInit)
    (co : CacheOptions) (w : World) :
  truthy (fst (getCachedData (co_key co) w)) = false ->
  let rq := mkRequest url (withCacheControl options) in
  let rep := network rq (clock w) in
  let after (store : gmap string CacheEntry) : World :=
    {| apiCache := store; clock := clock w + latency rep;
       fetchLog := fetchLog w ++ [rq] |} in
  let kept := apiCache (snd (getCachedData (co_key co) w)) in
  cachedFetch network url options co w =
    match outcome rep with
    | None => (Rejected FetchTypeError, after kept)
    | Some r =>
        if negb (ok r)
        then (Rejected (ErrorObj (httpErrorMessage (status r))), after kept)
        else
          match json r with
          | None => (Rejected JsonSyntaxError, after kept)
          | Some d =>
              (Fulfilled d,
               after (<[co_key co := mkEntry d (clock w + latency rep)
                                       (default 60000 (co_ttl co))]> kept))
          end
    end.
Proof.
  intros Hmiss rq rep after kept. subst rq rep after kept.
  rewrite cachedFetch_falsy by exact Hmiss.
  destruct (getCachedData_clock_log (co_key co) w) as [Hc Hl].
  unfold bind, fetch. rewrite Hc, Hl.
  destruct (outcome (network _ (clock w))) as [r |]; [| reflexivity].
  destruct (ok r); simpl; [| reflexivity].
  destruct (json r); reflexivity.
Qed.

(** X10: A call sends no request when the lookup gives a truthy payload and
    exactly one otherwise, whatever the network answers: a failed attempt is
    never repeated, and the requests sent before stay on record. *)
Theorem cachedFetch_sends_at_most_one_request
    (url : string) (options : RequestInit) (co : CacheOptions) (w : World) :
  fetchLog (snd (cachedFetch network url options co w)) =
    if truthy (fst (getCachedData (co_key co) w))
    then fetchLog w
    else fetchLog w ++ [mkRequest url (withCacheControl options)].
Proof.
  destruct (truthy (fst (getCachedData (co_key co) w))) eqn:Ht.
  - rewrite cachedFetch_truthy by exact Ht. simpl.
    apply getCachedData_clock_log.
  - rewrite (cachedFetch_miss_cases url options co w Ht).
    destruct (outcome _) as [r |]; [| reflexivity].
    destruct (negb (ok r)); [reflexivity |].
    destruct (json r); reflexivity.
Qed.

(** X11: Whenever the call rejects, nothing has been written: the store is the
    one the lookup left, one request was sent, and the reason is one of
    three: [fetch] itself rejected, the response was not ok (an [Error] with
    the status in its message), or the body did not parse. *)
Theorem cachedFetch_rejection_stores_nothing
    (url : string) (options : RequestInit) (co : CacheOptions) (w : World)
    (e : Thrown) :
  fst (cachedFetch network url options co w) = Rejected e ->
  apiCache (snd (cachedFetch network url options co w))
    = apiCache (snd (getCachedData (co_key co) w)) /\
  apiCache (snd (cachedFetch network url options co w)) ⊆ apiCache w /\
  fetchLog (snd (cachedFetch network url options co w))
    = fetchLog w ++ [mkRequest url (withCacheControl options)] /\
  (e = FetchTypeError \/ e = JsonSyntaxError \/
   exists r, outcome (network (mkRequest url (withCacheControl options))
                        (clock w)) = Some r /\ ok r = false /\
             e = ErrorObj (httpErrorMessage (status r))).
Proof.
  intros Hrej.
  destruct (truthy (fst (getCachedData (co_key co) w))) eqn:Ht.
  - rewrite cachedFetch_truthy in Hrej by exact Ht. discriminate.
  - revert Hrej. rewrite (cachedFetch_miss_cases url options co w Ht).
    assert (Hsub := getCachedData_subseteq (co_key co) w).
    destruct (outcome _) as [r |] eqn:Hout.
    + destruct (ok r) eqn:Hok; simpl.
      * destruct (json r); simpl; intros Hrej; [discriminate |].
        injection Hrej as <-. repeat split; auto.
      * intros Hrej. injection Hrej as <-. repeat split; auto.
        right. right. exists r. repeat split. exact Hok.
    + simpl. intros Hrej. injection Hrej as <-. repeat split; auto.
Qed.

(** X12: Whenever the call fulfils with a value, the store holds that value under
    the key right afterwards, be it the entry that was served or the one just
    written. *)
Theorem cachedFetch_fulfilled_value_is_cached
    (url : string) (options : RequestInit) (co : CacheOptions) (w : World)
    (v : JsValue) :
  fst (cachedFetch network url options co w) = Fulfilled v ->
  exists e, apiCache (snd (cachedFetch network url options co w)) !! co_key co
              = Some e /\ data e = v.
Proof.
  intros Hful.
  destruct (truthy (fst (getCachedData (co_key co) w))) eqn:Ht.
  - rewrite cachedFetch_truthy in * by exact Ht. simpl in *.
    injection Hful as Hv.
    destruct (getCachedData_cases (co_key co) w)
      as [[Heq Hk] | [[e [Hk [Hle Heq]]] | [e [Hk [Hgt Heq]]]]];
      rewrite Heq in *; simpl in *.
    + discriminate.
    + exists e. split; [exact Hk | exact Hv].
    + discriminate.
  - revert Hful. rewrite (cachedFetch_miss_cases url options co w Ht).
    destruct (outcome _) as [r |]; [| discriminate].
    destruct (negb (ok r)); [discriminate |].
    destruct (json r) as [d |]; [| discriminate].
    simpl. intros Hful. injection Hful as <-.
    eexists. split; [apply lookup_insert_eq | reflexivity].
Qed.

(** X9: The key alone decides a hit: once a fetch has stored a truthy payload, a
    second call under the same key within the ttl returns that payload and
    sends nothing, also when it names another url, other request options or
    another ttl. *)
Theorem cachedFetch_second_call_served_from_cache
    (url url2 : string) (options options2 : RequestInit) (co : CacheOptions)
    (ttl2 : option Z) (w : World) (r : Response) (lat dt : Z) (d : JsValue) :
  truthy (fst (getCachedData (co_key co) w)) = false ->
  network (mkRequest url (withCacheControl options)) (clock w)
    = mkReply (Some r) lat ->
  ok r = true ->
  json r = Some d ->
  truthy d = true ->
  0 <= dt <= default 60000 (co_ttl co) ->
  let w1 := elapse dt (snd (cachedFetch network url options co w)) in
  cachedFetch network url2 options2 (mkCacheOptions ttl2 (co_key co)) w1
    = (Fulfilled d, w1).
Proof.
  intros Hmiss Hnet Hok Hjson Htruthy Hdt w1. subst w1.
  rewrite (cachedFetch_miss_ok network url options co w r lat d
             Hmiss Hnet Hok Hjson).
  simpl snd.
  apply (cachedFetch_hit_truthy network url2 options2
           (mkCacheOptions ttl2 (co_key co)) _
           (mkEntry d (clock w + lat) (default 60000 (co_ttl co)))).
  - simpl. apply lookup_insert_eq.
  - simpl. lia.
  - exact Htruthy.
Qed.

End CachedFetchAllPaths.


(** Header names are compared as written: a caller's lower-case
    ["cache-control"] does not replace the default, both go out. *)
Example withCacheControl_is_case_sensitive :
  headers (withCacheControl
             (mkInit None {[ "cache-control" := "no-store" ]} None))
    = {[ "cache-control" := "no-store"; "Cache-Control" := "max-age=60" ]}.
Proof. apply map_eq. intros h. vm_compute. reflexivity. Qed.

(** ** Debounce and throttle on every script *)

Section RateShaperScripts.

Variable Args : Type.
Implicit Types (l : Loop Args) (a : Args) (script : list (Z * Args)).

(** An invocation that comes when the pending call is due lets that call
    run first, at its due time, and arms the wrapper anew. *)
Lemma debounce_after_due (wait t t' : Z) (a a' : Args) l :
  armed wait t a l ->
  t + wait <= t' ->
  armed wait t' a' (debounce wait a' (advanceTo t' l)) /\
  invoked (debounce wait a' (advanceTo t' l)) = invoked l ++ [(t + wait, a)].
Proof.
  intros [h [Hp Ht]] Hle.
  unfold advanceTo. rewrite Hp. simpl fireDue.
  destruct (Z.leb_spec (t + wait) t') as [_ | Hlt]; [| lia].
  unfold debounce. simpl. rewrite Ht, Hp, dequeue_single. simpl.
  split; [| reflexivity].
  exists (next_id l). split; reflexivity.
Qed.

Lemma debounce_spaced_from (wait t : Z) (a : Args) script l :
  armed wait t a l ->
  spaced wait t script ->
  invoked (runToIdle (runCalls (debounce wait) script l))
    = invoked l ++ map (fun c => (fst c + wait, snd c)) ((t, a) :: script).
Proof.
  revert t a l. induction script as [| [t' a'] rest IH]; intros t a l Harm Hs.
  - simpl. apply (armed_runToIdle Args wait t a l Harm).
  - destruct Hs as [Hle Hrest].
    destruct (debounce_after_due wait t t' a a' l Harm Hle) as [Harm' Hinv].
    simpl runCalls. rewrite (IH t' a' _ Harm' Hrest), Hinv.
    rewrite <- app_assoc. reflexivity.
Qed.


(** A new execution that comes [limit] after all the earlier ones keeps the
    record spaced. *)
Lemma minGap_snoc (limit t : Z) (a : Args) (xs : list (Z * Args)) :
  minGap limit xs ->
  Forall (fun x => fst x + limit <= t) xs ->
  minGap limit (xs ++ [(t, a)]).
Proof.
  induction xs as [| x rest IH]; intros Hg Hall.
  - simpl. split; exact I.
  - destruct Hg as [Hhead Hrest].
    apply Forall_cons in Hall as [Hx Hall].
    specialize (IH Hrest Hall).
    change ((x :: rest) ++ [(t, a)]) with (x :: (rest ++ [(t, a)])).
    split; [| exact IH].
    destruct rest as [| y rest']; simpl; [exact Hx | exact Hhead].
Qed.

(** When the window is left to run out, only the flag is reset: [func] is
    not run for the invocations that were dropped. *)
Lemma inWindow_runToIdle (d : Z) l :
  inWindow d l -> invoked (runToIdle l) = invoked l.
Proof.
  intros [_ [h Hp]]. unfold runToIdle. rewrite Hp. reflexivity.
Qed.

Lemma throttle_run_from (limit : Z) script :
  0 <= limit ->
  forall l d,
    inWindow d l ->
    minGap limit (invoked l) ->
    Forall (fun x => fst x + limit <= d) (invoked l) ->
    exists ys d',
      invoked (runCalls (throttle limit) script l) = invoked l ++ ys /\
      sublist ys script /\
      minGap limit (invoked l ++ ys) /\
      inWindow d' (runCalls (throttle limit) script l).
Proof.
  intros Hlim. induction script as [| [t a] rest IH]; intros l d Hw Hg Hall.
  - exists [], d. simpl. rewrite app_nil_r.
    split; [reflexivity |]. split; [constructor |].
    split; [exact Hg | exact Hw].
  - simpl runCalls. destruct (Z_lt_le_dec t d) as [Hlt | Hle].
    + destruct (throttle_drops_in_window Args limit d t a l Hw Hlt)
        as [Hinv Hw'].
      destruct (IH _ d Hw') as [ys [d' [Hys [Hsub [Hg' Hw'']]]]].
      * rewrite Hinv. exact Hg.
      * rewrite Hinv. exact Hall.
      * exists ys, d'. rewrite Hinv in Hys, Hg'.
        split; [exact Hys |]. split; [apply sublist_cons; exact Hsub |].
        split; [exact Hg' | exact Hw''].
    + destruct (throttle_passes_after_window Args limit d t a l Hw Hle)
        as [Hinv Hw'].
      destruct (IH _ (t + limit) Hw') as [ys [d' [Hys [Hsub [Hg' Hw'']]]]].
      * rewrite Hinv. apply minGap_snoc; [exact Hg |].
        eapply Forall_impl; [exact Hall |]. simpl. intros x Hx. lia.
      * rewrite Hinv. apply Forall_app. split.
        -- eapply Forall_impl; [exact Hall |]. simpl. intros x Hx. lia.
        -- apply Forall_cons. split; [simpl; lia | constructor].
      * exists ((t, a) :: ys), d'.
        rewrite Hinv, <- app_assoc in Hys, Hg'.
        split; [exact Hys |]. split; [apply sublist_skip; exact Hsub |].
        split; [exact Hg' | exact Hw''].
Qed.


End RateShaperScripts.




(** ** Hits, given ttls and the message of the error *)

Section CachedFetchHits.

Variable network : Request -> Z -> NetReply.

(** X8: A valid entry with a truthy payload is served as it is: the payload is
    returned and the world is left exactly as it was, so no request is sent,
    whatever the url and the options, and the entry keeps its insertion time
    and its ttl (a hit does not extend its life). *)
Theorem cachedFetch_valid_truthy_entry_served
    (url : string) (options : RequestInit) (co : CacheOptions)
    (w : World) (e : CacheEntry) :
  apiCache w !! co_key co = Some e ->
  clock w - timestamp e <= ttl e ->
  truthy (data e) = true ->
  cachedFetch network url options co w = (Fulfilled (data e), w) /\
  fetchLog (snd (cachedFetch network url options co w)) = fetchLog w /\
  apiCache (snd (cachedFetch network url options co w)) !! co_key co = Some e.
Proof.
  intros Hk Hle Ht.
  destruct (cachedFetch_hit_truthy network url options co w e Hk Hle Ht)
    as [Heq Hlog].
  rewrite Heq. simpl. repeat split. exact Hk.
Qed.

End CachedFetchHits.

Lemma cachedFetch_valid_truthy_entry_served_witness :
  let co := mkCacheOptions None "dashboard" in
  cachedFetch failingNetwork "/api/dashboard" emptyInit co boundaryWorld
    = (Fulfilled (JsNumber 42), boundaryWorld) /\
  fetchLog (snd (cachedFetch failingNetwork "/api/dashboard" emptyInit co
                   boundaryWorld)) = fetchLog boundaryWorld /\
  apiCache (snd (cachedFetch failingNetwork "/api/dashboard" emptyInit co
                   boundaryWorld)) !! "dashboard"
    = Some (mkEntry (JsNumber 42) 1000 30000).
Proof.
  apply (cachedFetch_valid_truthy_entry_served failingNetwork
           "/api/dashboard" emptyInit (mkCacheOptions None "dashboard")
           boundaryWorld (mkEntry (JsNumber 42) 1000 30000)).
  - reflexivity.
  - simpl. lia.
  - reflexivity.
Defined.

(** A ttl of 0 given in the options is stored as 0; the default of 60000 is
    for a ttl that is left out only. *)
Lemma cachedFetch_given_ttl_witness :
  apiCache (snd (cachedFetch countNetwork "/api/stats/overdue" emptyInit
                   (mkCacheOptions (Some 0) "stats:overdue")
                   (mkWorld ∅ 5000 []))) !! "stats:overdue"
    = Some (mkEntry (JsNumber 3) (5000 + 120) 0).
Proof.
  apply (cachedFetch_given_ttl countNetwork "/api/stats/overdue"
           emptyInit "stats:overdue" 0 (mkWorld ∅ 5000 [])
           (mkResponse true 200 (Some (JsNumber 3))) 120 (JsNumber 3)).
  - reflexivity.
  - reflexivity.
  - reflexivity.
  - reflexivity.
Defined.

Lemma cachedFetch_second_call_served_from_cache_witness :
  let w1 := elapse 60000
              (snd (cachedFetch countNetwork "/api/stats/overdue" emptyInit
                      (mkCacheOptions None "stats:overdue")
                      (mkWorld ∅ 5000 []))) in
  cachedFetch countNetwork "/api/other"
      (mkInit (Some "POST") ∅ (Some "{}"))
      (mkCacheOptions (Some 5) "stats:overdue") w1
    = (Fulfilled (JsNumber 3), w1).
Proof.
  apply (cachedFetch_second_call_served_from_cache countNetwork
           "/api/stats/overdue" "/api/other" emptyInit
           (mkInit (Some "POST") ∅ (Some "{}"))
           (mkCacheOptions None "stats:overdue") (Some 5)
           (mkWorld ∅ 5000 []) (mkResponse true 200 (Some (JsNumber 3)))
           120 60000 (JsNumber 3)).
  - reflexivity.
  - reflexivity.
  - reflexivity.
  - reflexivity.
  - reflexivity.
  - simpl. lia.
Defined.

Lemma cachedFetch_rejection_stores_nothing_witness :
  let res := cachedFetch failingNetwork "/api/invoices" emptyInit
               (mkCacheOptions None "invoices:p1") expiredWorld in
  apiCache (snd res)
    = apiCache (snd (getCachedData "invoices:p1" expiredWorld)) /\
  apiCache (snd res) ⊆ apiCache expiredWorld /\
  fetchLog (snd res)
    = fetchLog expiredWorld
        ++ [mkRequest "/api/invoices" (withCacheControl emptyInit)] /\
  (ErrorObj "HTTP error! status: 500" = FetchTypeError \/
   ErrorObj "HTTP error! status: 500" = JsonSyntaxError \/
   exists r, outcome (failingNetwork
                        (mkRequest "/api/invoices" (withCacheControl emptyInit))
                        (clock expiredWorld)) = Some r /\ ok r = false /\
             ErrorObj "HTTP error! status: 500"
               = ErrorObj (httpErrorMessage (status r))).
Proof.
  apply (cachedFetch_rejection_stores_nothing failingNetwork "/api/invoices"
           emptyInit (mkCacheOptions None "invoices:p1") expiredWorld
           (ErrorObj "HTTP error! status: 500")).
  reflexivity.
Defined.

Lemma cachedFetch_fulfilled_value_is_cached_witness :
  exists e,
    apiCache (snd (cachedFetch countNetwork "/api/stats/overdue" emptyInit
                     (mkCacheOptions (Some (-1)) "stats:overdue")
                     (mkWorld ∅ 5000 []))) !! "stats:overdue" = Some e /\
    data e = JsNumber 3.
Proof.
  apply (cachedFetch_fulfilled_value_is_cached countNetwork
           "/api/stats/overdue" emptyInit
           (mkCacheOptions (Some (-1)) "stats:overdue") (mkWorld ∅ 5000 [])
           (JsNumber 3)).
  reflexivity.
Defined.

(** X15: The message of the thrown [Error] determines the status: two responses
    with different statuses give different messages, and the status can be
    read back from the text after the fixed prefix. *)
Theorem httpErrorMessage_determines_status (st1 st2 : Z) :
  (httpErrorMessage st1 = httpErrorMessage st2 <-> st1 = st2) /\
  statusOfThrown (ErrorObj (httpErrorMessage st1)) = Some st1 /\
  String.prefix "HTTP error! status: " (httpErrorMessage st1) = true.
Proof.
  repeat split.
  - intros Heq.
    assert (H : statusOfThrown (ErrorObj (httpErrorMessage st1))
                = statusOfThrown (ErrorObj (httpErrorMessage st2)))
      by (rewrite Heq; reflexivity).
    rewrite !statusOfThrown_httpError in H. congruence.
  - intros ->. reflexivity.
  - apply statusOfThrown_httpError.
  - unfold httpErrorMessage. simpl.
    destruct (numberToString st1); reflexivity.
Qed.

(** ** The other utilities *)

(** X19: [optimizeImageUrl] returns every string as it is given, the empty string
    included; applying it twice is applying it once. *)
Theorem optimizeImageUrl_identity (url : string) :
  optimizeImageUrl url = url /\
  optimizeImageUrl (optimizeImageUrl url) = optimizeImageUrl url.
Proof.
  assert (H : optimizeImageUrl url = url).
  { unfold optimizeImageUrl. simpl.
    destruct (String.eqb_spec url "") as [-> | Hne]; reflexivity. }
  split; [exact H | rewrite !H; reflexivity].
Qed.

Section PreloadProperties.

Variable network : Request -> Z -> NetReply.

(** A read does not look at the requests on record. *)
Lemma getCachedData_relog (key : string) (w : World) (fl : list Request) :
  getCachedData key
    {| apiCache := apiCache w; clock := clock w; fetchLog := fl |}
  = (fst (getCachedData key w),
     {| apiCache := apiCache (snd (getCachedData key w));
        clock := clock w; fetchLog := fl |}).
Proof.
  unfold getCachedData, bind, mapGet, dateNow, mapDelete, ret. simpl.
  destruct (apiCache w !! key) as [e |]; [| reflexivity]. simpl.
  destruct (clock w - timestamp e >? ttl e); reflexivity.
Qed.

(** The outcome and the store of [cachedFetch] do not depend on the requests
    recorded before it. *)
Lemma cachedFetch_ignores_log
    (url : string) (options : RequestInit) (co : CacheOptions)
    (w : World) (fl : list Request) :
  let w' := {| apiCache := apiCache w; clock := clock w; fetchLog := fl |} in
  fst (cachedFetch network url options co w')
    = fst (cachedFetch network url options co w) /\
  apiCache (snd (cachedFetch network url options co w'))
    = apiCache (snd (cachedFetch network url options co w)).
Proof.
  intros w'.
  assert (Hg := getCachedData_relog (co_key co) w fl). fold w' in Hg.
  destruct (truthy (fst (getCachedData (co_key co) w))) eqn:Ht.
  - rewrite !cachedFetch_truthy by (try rewrite Hg; exact Ht).
    rewrite Hg. split; reflexivity.
  - rewrite (cachedFetch_miss_cases network url options co w Ht).
    rewrite (cachedFetch_miss_cases network url options co w')
      by (rewrite Hg; exact Ht).
    rewrite Hg. simpl.
    destruct (outcome (network _ (clock w))) as [r |]; [| split; reflexivity].
    destruct (negb (ok r)); [split; reflexivity |].
    destruct (json r); split; reflexivity.
Qed.

Lemma preloadResources_eq (w : World) :
  snd (preloadResources network w) =
    {| apiCache := apiCache w; clock := clock w;
       fetchLog := fetchLog w ++
         [mkRequest "/api/customers" preloadInit;
          mkRequest "/api/invoices?limit=10" preloadInit] |}.
Proof.
  unfold preloadResources, criticalEndpoints, forEach, preloadOne, bind,
    fetchDetached, ret. simpl. rewrite <- app_assoc. reflexivity.
Qed.

(** X20: [preloadResources] sends its two requests, in the order of the list, each
    with the one header ["Cache-Control: max-age=60"], at the same instant;
    it writes nothing to the cache; and whatever the network does with a
    request, the chain [fetch(...).catch(...)] is fulfilled, with [undefined]
    exactly when [fetch] rejects. *)
Theorem preloadResources_fire_and_forget (w : World) (endpoint : string) :
  snd (preloadResources network w) =
    {| apiCache := apiCache w; clock := clock w;
       fetchLog := fetchLog w ++
         [mkRequest "/api/customers" preloadInit;
          mkRequest "/api/invoices?limit=10" preloadInit] |} /\
  headers preloadInit = {[ "Cache-Control" := "max-age=60" ]} /\
  (exists v, fst (preloadOne network endpoint w) = Fulfilled v /\
             (v = None <->
              outcome (network (mkRequest endpoint preloadInit) (clock w))
                = None)).
Proof.
  split; [| split].
  - apply preloadResources_eq.
  - reflexivity.
  - unfold preloadOne, bind, fetchDetached, ret. simpl.
    destruct (outcome _) as [r |]; simpl.
    + exists (Some r). split; [reflexivity |]. split; discriminate.
    + exists None. split; [reflexivity |]. split; reflexivity.
Qed.


End PreloadProperties.

Section MeasurePerformanceProperties.

Variable Num : Type.
Variable sub : Num -> Num -> Num.
Variable numText : Num -> string.

(** X22: [measurePerformance] measures the runs that complete, and only those.
    When [fn] returns nothing, one line with the name and [end - start] goes
    to the console after whatever [fn] wrote, and [undefined] is returned.
    When [fn] returns a promise, nothing is written at the call; the promise
    handed back settles as the one of [fn] does, fulfilled or rejected, and
    the line is written at that moment. When [fn] throws, the exception goes
    through and no line is written at all. In no case is anything [fn] did
    to the world undone or altered. *)
Theorem measurePerformance_measures_completed_runs
    (name : string) (fn : PerfWorld Num -> FnResult Num * PerfWorld Num)
    (w : PerfWorld Num) :
  let line (w' : PerfWorld Num) :=
    name +:+ " took " +:+ numText (sub (perfNow w') (perfNow w))
         +:+ " milliseconds" in
  let logged (w' : PerfWorld Num) :=
    mkPerfWorld (perfNow w') (consoleLog w' ++ [line w']) in
  match fst (fn w) with
  | FnVoid =>
      measurePerformance sub numText name fn w
        = (MeasuredVoid, logged (snd (fn w)))
  | FnThrows e =>
      measurePerformance sub numText name fn w
        = (MeasuredThrows e, snd (fn w))
  | FnPromise p =>
      exists q,
        measurePerformance sub numText name fn w
          = (MeasuredPromise q, snd (fn w)) /\
        forall w2, fst (q w2) = fst (p w2) /\
                   snd (q w2) = logged (snd (p w2))
  end.
Proof.
  intros line logged. unfold measurePerformance.
  destruct (fn w) as [[| e | p] w1]; simpl.
  - reflexivity.
  - reflexivity.
  - exists (finally_ p (logDuration sub numText name (perfNow w))).
    split; [reflexivity |].
    intros w2. unfold finally_. destruct (p w2) as [out w3].
    split; reflexivity.
Qed.

End MeasurePerformanceProperties.
